(** * GitDiff: building git invocations and isolating the patch text

    A shallow embedding of [app/src/lib/git/git-diff.ts].  The three static
    methods of the class [GitDiff] are embedded as functions:

    - [getCommitDiff] and [getWorkingDirectoryDiff] build an argument list
      (and, for new files, execution options), hand it to the process
      runner [git] and pass the captured standard output on;
    - [diffFromRawDiffOutput] splits that output on NUL, allocates a parser
      object and parses the last piece.

    JavaScript strings are embedded as [string]; the NUL character is the
    character with code 0.  Exit codes are integers ([Z]) and the
    [Set<number>] of accepted exit codes is a [gset Z].  A promise is
    embedded as what it settles to, [inr] the value it is fulfilled with
    or [inl] the error it is rejected with.  Parser objects live in a
    store, a list that a call extends with the object it allocates. *)

From stdpp Require Import base list strings gmap.
From Stdlib Require Import ZArith Ascii String Lia.

Local Open Scope string_scope.
Local Open Scope list_scope.

(** ** Strings *)

Module Str.

(** The character '\0'. *)
Definition NUL : ascii := Ascii.zero.

(** The character '\n'. *)
Definition LF : ascii := "010"%char.

(** [String.prototype.split] with a separator of one character: the
    pieces between the occurrences of the separator, in order.  The
    empty string splits into one empty piece. *)
Fixpoint split (sep : ascii) (s : string) : list string :=
  match s with
  | EmptyString => [EmptyString]
  | String c rest =>
      if Ascii.eqb c sep then EmptyString :: split sep rest
      else match split sep rest with
           | piece :: pieces => String c piece :: pieces
           | [] => [String c EmptyString]
           end
  end.

(** [Array.prototype.join] with a separator of one character. *)
Fixpoint join (sep : ascii) (pieces : list string) : string :=
  match pieces with
  | [] => EmptyString
  | [piece] => piece
  | piece :: rest => piece +:+ String sep (join sep rest)
  end.

(** Does the character occur in the string? *)
Fixpoint contains (c : ascii) (s : string) : bool :=
  match s with
  | EmptyString => false
  | String d rest => Ascii.eqb d c || contains c rest
  end.

(** [String.prototype.startsWith]. *)
Definition startsWith (s pre : string) : bool := String.prefix pre s.

End Str.

(** ** The models the module imports *)

(** Modelled from the spec: the enumeration [FileStatus] of
    [models/status], whose declaration is outside this module.  The spec
    names [New], [Renamed] and [Modified] and leaves room for others that
    play no part in the dispatch; deleted and conflicted files stand for
    those. *)
Inductive FileStatus : Set :=
  | New
  | Modified
  | Deleted
  | Renamed
  | Conflicted.

#[global] Instance FileStatus_eq_dec : EqDecision FileStatus.
Proof. solve_decision. Defined.

(** [Repository] of [models/repository], declared outside this module;
    only its [path] is read here. *)
Record Repository : Set := mkRepository { repo_path : string }.

(** [FileChange] of [models/status], declared outside this module; only
    its [path] is read here. *)
Record FileChange : Set := mkFileChange { fc_path : string }.

(** [WorkingDirectoryFileChange] of [models/status], declared outside this
    module; its [path] and its [status] are read here. *)
Record WorkingDirectoryFileChange : Set := mkWorkingDirectoryFileChange {
  path : string;
  status : FileStatus
}.

(** [IGitExecutionOptions] of [./core], declared outside this module, with
    the one field that is set here, a [Set] of numbers. *)
Record IGitExecutionOptions : Type := mkOptions {
  successExitCodes : gset Z
}.

(** What [git] is called with: the argument list, the working directory
    and the options, which are [undefined] ([None]) unless set. *)
Record Invocation : Type := mkInvocation {
  args : list string;
  cwd : string;
  opts : option IGitExecutionOptions
}.

(** ** The argument lists *)

Module GitDiffArgs.

(** The call [git(args, repository.path)] of [getCommitDiff]. *)
Definition commitDiff (repository : Repository) (file : FileChange)
    (commitish : string) : Invocation :=
  let args := [ "log"; commitish; "-m"; "-1"; "--first-parent";
                "--patch-with-raw"; "-z"; "--"; fc_path file ] in
  mkInvocation args (repo_path repository) None.

(** The call [git(args, repository.path, opts)] of
    [getWorkingDirectoryDiff], after the dispatch on the status. *)
Definition workingDirectoryDiff (repository : Repository)
    (file : WorkingDirectoryFileChange) : Invocation :=
  if decide (status file = New) then
    let opts := mkOptions ({[ 0%Z; 1%Z ]}) in
    let args := [ "diff"; "--no-index"; "--patch-with-raw"; "-z"; "--";
                  "/dev/null"; path file ] in
    mkInvocation args (repo_path repository) (Some opts)
  else if decide (status file = Renamed) then
    let args := [ "diff"; "--patch-with-raw"; "-z"; "--"; path file ] in
    mkInvocation args (repo_path repository) None
  else
    let args := [ "diff"; "HEAD"; "--patch-with-raw"; "-z"; "--";
                  path file ] in
    mkInvocation args (repo_path repository) None.

(** How git reads an argument list: what stands before the first [--]
    are the subcommand, options and revisions, what stands after it are
    paths. *)
Fixpoint beforeSeparator (args : list string) : list string :=
  match args with
  | [] => []
  | a :: rest => if String.eqb a "--" then [] else a :: beforeSeparator rest
  end.

Fixpoint afterSeparator (args : list string) : list string :=
  match args with
  | [] => []
  | a :: rest => if String.eqb a "--" then rest else afterSeparator rest
  end.

(** The null device, which git reads as an empty file. *)
Definition nullDevice : string := "/dev/null".

(** The files an argument list is about: the paths after [--].  With
    [--no-index] these are the two sides of the comparison, and a left
    side that is the null device is the empty file, not a file the
    comparison is about. *)
Definition scope (args : list string) : list string :=
  if bool_decide ("--no-index" ∈ beforeSeparator args) then
    match afterSeparator args with
    | [ base; target ] =>
        if String.eqb base nullDevice then [ target ] else [ base; target ]
    | paths => paths
    end
  else afterSeparator args.

End GitDiffArgs.

(** ** The process runner *)

(** Modelled from the spec: what a finished run of the external tool
    leaves behind, "standard output text and exit code".  The field
    [stdout] is the one read in this module. *)
Record ProcessResult : Set := mkProcessResult {
  exitCode : Z;
  stdout : string
}.

(** The external tool, a black box: run with an argument list in a working
    directory it either cannot be started ([None]) or finishes with an exit
    code and its standard output. *)
Definition Tool : Type := list string -> string -> option ProcessResult.

(** Modelled from the spec: what a request is rejected with, the
    [ToolExecutionError] and the [ParseError] of the error taxonomy; to
    these is added the [TypeError] of a method applied to [undefined]. *)
Inductive Error : Set :=
  | ToolExecutionError
  | ParseError (line : string)
  | TypeError.

Module Core.

(** Modelled from the spec: the accepted exit codes of [git] in [./core]
    when the caller passes no options, "default {0}". *)
Definition defaultSuccessExitCodes : gset Z := {[ 0%Z ]}.

Definition acceptedExitCodes (opts : option IGitExecutionOptions) : gset Z :=
  match opts with
  | Some o => successExitCodes o
  | None => defaultSuccessExitCodes
  end.

(** Modelled from the spec: the function [git] of [./core], which is
    outside this module: "given an argument list, a working directory,
    and an optional set of successful exit codes (default {0}), executes
    the external tool and returns its standard-output text; fails if the
    exit code is outside the accepted set", the failure being a
    [ToolExecutionError], as it is when the tool "could not be
    started". *)
Definition git (tool : Tool) (args : list string) (path : string)
    (opts : option IGitExecutionOptions) : Error + ProcessResult :=
  match tool args path with
  | None => inl ToolExecutionError
  | Some result =>
      if decide (exitCode result ∈ acceptedExitCodes opts)
      then inr result
      else inl ToolExecutionError
  end.

End Core.

(** ** The structured diff *)

(** Modelled from the spec: the types of [models/diff], which are declared
    outside this module.  A line has a text, a kind and the numbers it has
    in the old and in the new file; a hunk has a header with the two ranges
    and its lines; a diff is the sequence of its hunks, or the "not
    diffable" result for content that is not shown line by line. *)

Inductive DiffLineKind : Set := Added | Removed | Context.

Record DiffLine : Set := mkDiffLine {
  text : string;
  kind : DiffLineKind;
  oldLineNumber : option N;
  newLineNumber : option N
}.

Record HunkHeader : Set := mkHunkHeader {
  oldStartLine : N;
  oldLineCount : N;
  newStartLine : N;
  newLineCount : N
}.

Record Hunk : Set := mkHunk {
  header : HunkHeader;
  lines : list DiffLine
}.

Inductive Diff : Set :=
  | Hunks (hunks : list Hunk)
  | NotDiffable.

Definition hunkCount (d : Diff) : option nat :=
  match d with
  | Hunks hs => Some (List.length hs)
  | NotDiffable => None
  end.

(** ** The parser *)

Module DiffParser.

(** *** Hunk headers: [@@ -start,count +start,count @@] *)

Definition digitValue (c : ascii) : option N :=
  let n := N_of_ascii c in
  if ((48 <=? n) && (n <=? 57))%N then Some (n - 48)%N else None.

Fixpoint readDigits (acc : N) (s : string) : N * string :=
  match s with
  | String c rest =>
      match digitValue c with
      | Some d => readDigits (10 * acc + d)%N rest
      | None => (acc, s)
      end
  | EmptyString => (acc, s)
  end.

(** A number needs one digit at least. *)
Definition readNumber (s : string) : option (N * string) :=
  match s with
  | String c rest =>
      match digitValue c with
      | Some d => Some (readDigits d rest)
      | None => None
      end
  | EmptyString => None
  end.

Fixpoint expect (pre s : string) : option string :=
  match pre, s with
  | EmptyString, _ => Some s
  | String a pre', String b s' =>
      if Ascii.eqb a b then expect pre' s' else None
  | String _ _, EmptyString => None
  end.

(** A range is [start] or [start,count]; the count left out is 1. *)
Definition readRange (s : string) : option (N * N * string) :=
  match readNumber s with
  | None => None
  | Some (start, s1) =>
      match s1 with
      | String "," s2 =>
          match readNumber s2 with
          | Some (count, s3) => Some (start, count, s3)
          | None => None
          end
      | _ => Some (start, 1%N, s1)
      end
  end.

Definition parseHunkHeader (line : string) : option HunkHeader :=
  s1 ← expect "@@ -" line;
  '(oldStart, oldCount, s2) ← readRange s1;
  s3 ← expect " +" s2;
  '(newStart, newCount, s4) ← readRange s3;
  _ ← expect " @@" s4;
  Some (mkHunkHeader oldStart oldCount newStart newCount).

(** *** The parser object *)

(** Modelled from the spec: the fields of a [DiffParser] of
    [../diff-parser], which is outside this module: "a running old-file
    line counter and new-file line counter", the hunk being read with its
    lines (latest first) and the hunks read before it (latest first). *)
Record t : Set := mkParser {
  oldLine : N;
  newLine : N;
  current : option (HunkHeader * list DiffLine);
  finished : list Hunk
}.

(** [new DiffParser()]. *)
Definition fresh : t := mkParser 0 0 None [].

Definition closeHunk (p : t) : list Hunk :=
  match current p with
  | Some (h, ls) => mkHunk h (reverse ls) :: finished p
  | None => finished p
  end.

Definition pushLine (p : t) (l : DiffLine) (oldLine' newLine' : N) : t :=
  match current p with
  | Some (h, ls) => mkParser oldLine' newLine' (Some (h, l :: ls)) (finished p)
  | None => p
  end.

(** What reading one line ends in: go on, stop with the placeholder, or
    fail. *)
Inductive Step : Set :=
  | Continue (p : t)
  | StopNotDiffable
  | Fail (e : Error).

(** Modelled from the spec: reading one line of the patch text.
    - A hunk header resets both counters "using the ranges declared in
      that header"; one that does not parse is a [ParseError] "indicating
      the offending line".
    - A per-file header ends the hunk before it; what follows up to the
      next hunk header belongs to the per-file header, where the tool's
      marker of binary content gives the "not diffable" result.
    - In a hunk, [+] is an added line, [-] a removed line and a space a
      context line, the counters "incremented according to line kind";
      "lines beginning with other markers ... are metadata, not content
      lines". *)
Definition step (p : t) (line : string) : Step :=
  if Str.startsWith line "@@" then
    match parseHunkHeader line with
    | None => Fail (ParseError line)
    | Some h =>
        Continue (mkParser (oldStartLine h) (newStartLine h)
                           (Some (h, [])) (closeHunk p))
    end
  else if Str.startsWith line "diff --git" then
    Continue (mkParser (oldLine p) (newLine p) None (closeHunk p))
  else
    match current p with
    | None =>
        if Str.startsWith line "Binary files " then StopNotDiffable
        else Continue p
    | Some _ =>
        match line with
        | String "+" content =>
            Continue (pushLine p
              (mkDiffLine content Added None (Some (newLine p)))
              (oldLine p) (newLine p + 1)%N)
        | String "-" content =>
            Continue (pushLine p
              (mkDiffLine content Removed (Some (oldLine p)) None)
              (oldLine p + 1)%N (newLine p))
        | String " " content =>
            Continue (pushLine p
              (mkDiffLine content Context (Some (oldLine p)) (Some (newLine p)))
              (oldLine p + 1)%N (newLine p + 1)%N)
        | _ => Continue p
        end
    end.

Fixpoint run (p : t) (lines : list string) : Step :=
  match lines with
  | [] => Continue p
  | line :: rest =>
      match step p line with
      | Continue p' => run p' rest
      | stop => stop
      end
  end.

Section Threshold.

(** Modelled from the spec: the "practical size ... threshold" above
    which a patch is not shown line by line.  The spec gives it no
    value; it is the number of characters here. *)
Variable maxDiffSize : nat.

(** Modelled from the spec: the method [parse] of [DiffParser].
    "Each invocation starts counters fresh", whatever an earlier call
    left in the object; the object is returned as the call leaves
    it. *)
Definition parse (p : t) (diffText : string) : (Error + Diff) * t :=
  let p0 := fresh in
  if decide (maxDiffSize < String.length diffText) then (inr NotDiffable, p0)
  else
    match run p0 (Str.split Str.LF diffText) with
    | Continue p' => (inr (Hunks (reverse (closeHunk p'))), p')
    | StopNotDiffable => (inr NotDiffable, p0)
    | Fail e => (inl e, p0)
    end.

End Threshold.

End DiffParser.

(** ** The class [GitDiff] *)

Module GitDiff.

Section WithParser.

(** The class [DiffParser] is imported from [../diff-parser]; this
    module calls its constructor and its method [parse] and nothing
    else.  Both are taken as given, with the state of a parser object. *)
Variable Parser : Type.

(** The object [new DiffParser()] builds. *)
Variable newParser : Parser.

(** Modelled from the spec: the method [parse] of a [DiffParser] "touches
    no shared mutable state": it reads its object and the text, may write
    to its object, and returns a [Diff] or throws. *)
Variable parse : Parser -> string -> (Error + Diff) * Parser.

(** The external tool of the run. *)
Variable tool : Tool.

(** The store of parser objects; a reference is an index into it. *)
Definition alloc (heap : list Parser) : nat * list Parser :=
  (List.length heap, heap ++ [newParser]).

(** [parser.parse(text)]: the method runs on the object the reference
    points to and leaves it as the method left it. *)
Definition callParse (heap : list Parser) (parser : nat) (text : string)
    : (Error + Diff) * list Parser :=
  match heap !! parser with
  | Some object =>
      let '(outcome, object') := parse object text in
      (outcome, <[parser := object']> heap)
  | None => (inl TypeError, heap)
  end.

(** [diffFromRawDiffOutput(result)].  [pieces[pieces.length - 1]] is
    [undefined] when the index is out of range, and a [parse] given
    [undefined] throws. *)
Definition diffFromRawDiffOutput (heap : list Parser) (result : string)
    : (Error + Diff) * list Parser :=
  let pieces := Str.split Str.NUL result in
  let '(parser, heap1) := alloc heap in
  match pieces !! (List.length pieces - 1) with
  | Some piece => callParse heap1 parser piece
  | None => (inl TypeError, heap1)
  end.

(** [git(...).then(value => this.diffFromRawDiffOutput(value.stdout))]:
    a rejected promise stays rejected, a fulfilled one is parsed. *)
Definition thenParse (heap : list Parser) (value : Error + ProcessResult)
    : (Error + Diff) * list Parser :=
  match value with
  | inl e => (inl e, heap)
  | inr v => diffFromRawDiffOutput heap (stdout v)
  end.

(** [getCommitDiff(repository, file, commitish)]. *)
Definition getCommitDiff (heap : list Parser) (repository : Repository)
    (file : FileChange) (commitish : string)
    : (Error + Diff) * list Parser :=
  let inv := GitDiffArgs.commitDiff repository file commitish in
  thenParse heap (Core.git tool (args inv) (cwd inv) (opts inv)).

(** [getWorkingDirectoryDiff(repository, file)]. *)
Definition getWorkingDirectoryDiff (heap : list Parser)
    (repository : Repository) (file : WorkingDirectoryFileChange)
    : (Error + Diff) * list Parser :=
  let inv := GitDiffArgs.workingDirectoryDiff repository file in
  thenParse heap (Core.git tool (args inv) (cwd inv) (opts inv)).

(** Several outputs parsed one after the other on one store. *)
Fixpoint parseAll (heap : list Parser) (outputs : list string)
    : list (Error + Diff) * list Parser :=
  match outputs with
  | [] => ([], heap)
  | output :: rest =>
      let '(outcome, heap1) := diffFromRawDiffOutput heap output in
      let '(outcomes, heap2) := parseAll heap1 rest in
      (outcome :: outcomes, heap2)
  end.

End WithParser.

End GitDiff.

(** ** Sample inputs *)

Module Samples.

Definition nul : string := String Str.NUL EmptyString.
Definition lf : string := String Str.LF EmptyString.

(** RAW_SUMMARY, NUL, and a patch of one hunk. *)
Definition patch : string :=
  "diff --git a/x b/x" +:+ lf +:+ "@@ -1,1 +1,1 @@" +:+ lf +:+
  "-old" +:+ lf +:+ "+new" +:+ lf.

Definition response : string := "RAW_SUMMARY" +:+ nul +:+ patch.

Definition fragment : string :=
  "@@ -2,3 +2,4 @@" +:+ lf +:+ " context1" +:+ lf +:+ "-removed1" +:+ lf +:+
  "+added1" +:+ lf +:+ "+added2" +:+ lf +:+ " context2" +:+ lf.

Definition repo : Repository := mkRepository "/work/desktop".

(** A tool that prints [patch] after a raw section and exits with the
    given code. *)
Definition toolExiting (code : Z) : Tool :=
  fun _ _ => Some (mkProcessResult code response).

End Samples.


(** * Facts *)

(** Closes the conjuncts on a literal argument list: equalities by
    computation, memberships by going through the list. *)
Ltac args_facts :=
  repeat match goal with |- _ /\ _ => split end;
  first [ reflexivity
        | rewrite list_elem_of_In; simpl; intuition congruence ].

(** ** Splitting and joining *)

Section SplitFacts.

Variable sep : ascii.

Lemma split_not_nil (s : string) : Str.split sep s <> [].
Proof.
  destruct s as [|c rest]; simpl; [discriminate|].
  destruct (Ascii.eqb c sep); [discriminate|].
  destruct (Str.split sep rest); discriminate.
Qed.

Lemma join_cons (piece : string) (rest : list string) :
  rest <> [] ->
  Str.join sep (piece :: rest) = piece +:+ String sep (Str.join sep rest).
Proof. destruct rest; [congruence | reflexivity]. Qed.

(** Joining the pieces with the separator gives the string back. *)
Lemma join_split (s : string) : Str.join sep (Str.split sep s) = s.
Proof.
  induction s as [|c rest IH]; [reflexivity|].
  simpl Str.split. case_eq (Ascii.eqb c sep); intros Hc.
  - apply Ascii.eqb_eq in Hc. subst c.
    rewrite join_cons by apply split_not_nil.
    rewrite IH. reflexivity.
  - pose proof (split_not_nil rest) as Hne.
    destruct (Str.split sep rest) as [|piece [|piece' pieces]]; [congruence| |].
    + simpl in *. congruence.
    + rewrite join_cons by discriminate.
      rewrite join_cons in IH by discriminate.
      rewrite <- IH. reflexivity.
Qed.

(** No piece holds the separator. *)
Lemma split_pieces_clean (s : string) :
  Forall (fun piece => Str.contains sep piece = false) (Str.split sep s).
Proof.
  induction s as [|c rest IH]; simpl.
  - repeat constructor.
  - case_eq (Ascii.eqb c sep); intros Hc.
    + constructor; [reflexivity | exact IH].
    + destruct (Str.split sep rest) as [|piece pieces].
      * repeat constructor. simpl. rewrite Hc. reflexivity.
      * inversion IH as [|? ? Hpiece Hpieces]; subst.
        constructor; [|exact Hpieces].
        simpl. rewrite Hc. exact Hpiece.
Qed.

(** A string without the separator is its own single piece. *)
Lemma split_clean (s : string) :
  Str.contains sep s = false -> Str.split sep s = [s].
Proof.
  induction s as [|c rest IH]; simpl; [reflexivity|].
  intros H. apply orb_false_iff in H as [Hc Hrest].
  rewrite Hc, (IH Hrest). reflexivity.
Qed.

(** A string with the separator has two pieces at least. *)
Lemma split_dirty (s : string) :
  Str.contains sep s = true -> 2 <= List.length (Str.split sep s).
Proof.
  induction s as [|c rest IH]; simpl; [discriminate|].
  case_eq (Ascii.eqb c sep); intros Hc; simpl.
  - intros _. pose proof (split_not_nil rest).
    destruct (Str.split sep rest); [congruence | simpl; lia].
  - intros Hrest. specialize (IH Hrest).
    destruct (Str.split sep rest); simpl in *; lia.
Qed.

Lemma split_app_sep (piece rest : string) :
  Str.contains sep piece = false ->
  Str.split sep (piece +:+ String sep rest) = piece :: Str.split sep rest.
Proof.
  induction piece as [|c piece IH]; simpl.
  - intros _. rewrite Ascii.eqb_refl. reflexivity.
  - intros H. apply orb_false_iff in H as [Hc Hpiece].
    rewrite Hc, (IH Hpiece). reflexivity.
Qed.

(** Splitting is the only way to cut a string into pieces free of the
    separator that join back to it. *)
Lemma split_unique (pieces : list string) :
  pieces <> [] ->
  Forall (fun piece => Str.contains sep piece = false) pieces ->
  Str.split sep (Str.join sep pieces) = pieces.
Proof.
  induction pieces as [|piece rest IH]; [congruence|].
  intros _ Hclean. inversion Hclean as [|? ? Hpiece Hrest]; subst.
  destruct rest as [|piece' rest].
  - simpl. apply split_clean, Hpiece.
  - rewrite join_cons by discriminate.
    rewrite split_app_sep by exact Hpiece.
    rewrite IH; [reflexivity | discriminate | exact Hrest].
Qed.

(** The piece at index [length - 1] is the last one, and there is one. *)
Lemma split_last_piece (s : string) :
  exists front piece,
    Str.split sep s = front ++ [piece] /\
    Str.split sep s !! (List.length (Str.split sep s) - 1) = Some piece.
Proof.
  pose proof (split_not_nil s) as Hne.
  destruct (Str.split sep s) as [|p ps] using rev_ind; [congruence|].
  exists ps, p. split; [reflexivity|].
  rewrite length_app. simpl.
  replace (List.length ps + 1 - 1) with (List.length ps) by lia.
  apply list_lookup_middle. reflexivity.
Qed.

Lemma append_assoc (a b c : string) : (a +:+ b) +:+ c = a +:+ (b +:+ c).
Proof.
  induction a as [|x a IH]; [reflexivity|].
  change (String x ((a +:+ b) +:+ c) = String x (a +:+ (b +:+ c))).
  rewrite IH. reflexivity.
Qed.

(** The last piece stands after the last separator. *)
Lemma join_snoc (front : list string) (piece : string) :
  front <> [] ->
  Str.join sep (front ++ [piece]) = Str.join sep front +:+ String sep piece.
Proof.
  induction front as [|p front IH]; [congruence|]. intros _.
  destruct front as [|p' front].
  - reflexivity.
  - change ((p :: p' :: front) ++ [piece]) with (p :: p' :: (front ++ [piece])).
    rewrite join_cons by discriminate.
    change (p' :: (front ++ [piece])) with ((p' :: front) ++ [piece]).
    rewrite IH by discriminate.
    rewrite (join_cons p (p' :: front)) by discriminate.
    rewrite append_assoc. reflexivity.
Qed.

(** In a string with the separator, the last piece is what follows the
    last separator; a string without it is its own last piece. *)
Lemma split_last_suffix (s : string) :
  exists front piece,
    Str.split sep s = front ++ [piece] /\
    Str.contains sep piece = false /\
    if Str.contains sep s
    then front <> [] /\ s = Str.join sep front +:+ String sep piece
    else front = [] /\ piece = s.
Proof.
  destruct (split_last_piece s) as (front & piece & Hsplit & _).
  exists front, piece. split; [exact Hsplit|].
  pose proof (split_pieces_clean s) as Hclean. rewrite Hsplit in Hclean.
  apply Forall_app in Hclean as [_ Hpiece].
  inversion Hpiece as [|? ? Hp _]; subst.
  split; [exact Hp|].
  case_eq (Str.contains sep s); intros Hs.
  - pose proof (split_dirty s Hs) as Hlen. rewrite Hsplit in Hlen.
    assert (front <> []) as Hfront.
    { intros ->. simpl in Hlen. lia. }
    split; [exact Hfront|].
    rewrite <- (join_split s) at 1. rewrite Hsplit.
    apply join_snoc, Hfront.
  - rewrite (split_clean s Hs) in Hsplit.
    destruct front as [|p front].
    + simpl in Hsplit. split; congruence.
    + exfalso. inversion Hsplit as [[Hp' Hnil]].
      destruct front; discriminate.
Qed.

End SplitFacts.

(** ** One call of [diffFromRawDiffOutput] *)

Section ParsingFacts.

Variable Parser : Type.
Variable newParser : Parser.
Variable parse : Parser -> string -> (Error + Diff) * Parser.

(** A call on the object just allocated reads and writes that object
    alone. *)
Lemma callParse_alloc (heap : list Parser) (text : string) :
  GitDiff.callParse Parser parse (heap ++ [newParser]) (List.length heap) text =
  (fst (parse newParser text), heap ++ [snd (parse newParser text)]).
Proof.
  unfold GitDiff.callParse.
  rewrite list_lookup_middle by reflexivity.
  destruct (parse newParser text) as [outcome object'].
  simpl. f_equal.
  rewrite insert_app_r_alt by lia.
  replace (List.length heap - List.length heap) with 0 by lia.
  reflexivity.
Qed.

(** The call parses the last piece on a parser of its own. *)
Lemma diffFromRawDiffOutput_last (heap : list Parser) (result : string) :
  exists front patch,
    Str.split Str.NUL result = front ++ [patch] /\
    GitDiff.diffFromRawDiffOutput Parser newParser parse heap result =
    (fst (parse newParser patch), heap ++ [snd (parse newParser patch)]).
Proof.
  destruct (split_last_piece Str.NUL result) as (front & patch & Hsplit & Hlast).
  exists front, patch. split; [exact Hsplit|].
  unfold GitDiff.diffFromRawDiffOutput, GitDiff.alloc.
  rewrite Hlast. apply callParse_alloc.
Qed.

(** The outcome does not depend on the store the call starts from. *)
Lemma diffFromRawDiffOutput_outcome (heap heap' : list Parser) (result : string) :
  fst (GitDiff.diffFromRawDiffOutput Parser newParser parse heap result) =
  fst (GitDiff.diffFromRawDiffOutput Parser newParser parse heap' result).
Proof.
  destruct (diffFromRawDiffOutput_last heap result) as (f1 & p1 & H1 & E1).
  destruct (diffFromRawDiffOutput_last heap' result) as (f2 & p2 & H2 & E2).
  rewrite E1, E2. simpl.
  rewrite H1 in H2. apply app_inj_tail in H2 as [_ ->]. reflexivity.
Qed.

(** The objects in the store before the call are left as they were. *)
Lemma diffFromRawDiffOutput_store (heap : list Parser) (result : string) :
  exists object,
    snd (GitDiff.diffFromRawDiffOutput Parser newParser parse heap result) =
    heap ++ [object].
Proof.
  destruct (diffFromRawDiffOutput_last heap result) as (f & p & _ & E).
  rewrite E. eexists. reflexivity.
Qed.

(** In a run of calls, each outcome is the outcome of that call made on
    the empty store. *)
Lemma parseAll_outcomes (outputs : list string) (heap : list Parser) :
  fst (GitDiff.parseAll Parser newParser parse heap outputs) =
  map (fun output =>
         fst (GitDiff.diffFromRawDiffOutput Parser newParser parse [] output))
      outputs.
Proof.
  revert heap. induction outputs as [|output rest IH]; intros heap.
  - reflexivity.
  - simpl.
    pose proof (diffFromRawDiffOutput_outcome heap [] output) as Hout.
    destruct (GitDiff.diffFromRawDiffOutput Parser newParser parse heap output)
      as [outcome heap1].
    specialize (IH heap1).
    destruct (GitDiff.parseAll Parser newParser parse heap1 rest)
      as [outcomes heap2].
    simpl in *. rewrite Hout, IH. reflexivity.
Qed.

(** A run of calls only appends to the store. *)
Lemma parseAll_store (outputs : list string) (heap : list Parser) :
  exists objects,
    snd (GitDiff.parseAll Parser newParser parse heap outputs) = heap ++ objects
    /\ List.length objects = List.length outputs.
Proof.
  revert heap. induction outputs as [|output rest IH]; intros heap.
  - exists []. simpl. rewrite app_nil_r. split; reflexivity.
  - simpl.
    destruct (diffFromRawDiffOutput_store heap output) as (object & Hobject).
    destruct (GitDiff.diffFromRawDiffOutput Parser newParser parse heap output)
      as [outcome heap1].
    destruct (IH heap1) as (objects & Hobjects & Hlen).
    destruct (GitDiff.parseAll Parser newParser parse heap1 rest)
      as [outcomes heap2].
    simpl in *. subst heap1 heap2.
    exists (object :: objects). rewrite <- app_assoc. simpl.
    split; [reflexivity | congruence].
Qed.

End ParsingFacts.

(** ** The runner and the accepted exit codes *)

Section RunnerFacts.

Variable tool : Tool.

(** [git] fulfils with the result of the tool exactly when the tool ran
    and its exit code is an accepted one. *)
Lemma git_fulfilled (args : list string) (path : string)
    (opts : option IGitExecutionOptions) (result : ProcessResult) :
  Core.git tool args path opts = inr result <->
  tool args path = Some result /\
  exitCode result ∈ Core.acceptedExitCodes opts.
Proof.
  unfold Core.git. destruct (tool args path) as [r|].
  - case_decide as Hin; split.
    + intros [= ->]. split; [reflexivity | exact Hin].
    + intros [[= ->] _]. reflexivity.
    + discriminate.
    + intros [[= ->] Hin']. contradiction.
  - split; [discriminate | intros [[=] _]].
Qed.

(** A tool that ran with an exit code outside the accepted ones is a
    [ToolExecutionError]. *)
Lemma git_rejected (args : list string) (path : string)
    (opts : option IGitExecutionOptions) (result : ProcessResult) :
  tool args path = Some result ->
  exitCode result ∉ Core.acceptedExitCodes opts ->
  Core.git tool args path opts = inl ToolExecutionError.
Proof.
  intros Hrun Hout. unfold Core.git. rewrite Hrun.
  case_decide; [contradiction | reflexivity].
Qed.

End RunnerFacts.

Lemma accepted_default (c : Z) :
  c ∈ Core.acceptedExitCodes None <-> c = 0%Z.
Proof. unfold Core.acceptedExitCodes, Core.defaultSuccessExitCodes. set_solver. Qed.

Lemma accepted_zero_one (c : Z) :
  c ∈ Core.acceptedExitCodes (Some (mkOptions {[ 0%Z; 1%Z ]})) <->
  c = 0%Z \/ c = 1%Z.
Proof. unfold Core.acceptedExitCodes. simpl. set_solver. Qed.

(** ** The dispatch on the status *)

Lemma workingDirectoryDiff_New (repository : Repository)
    (file : WorkingDirectoryFileChange) :
  status file = New ->
  GitDiffArgs.workingDirectoryDiff repository file =
  mkInvocation
    [ "diff"; "--no-index"; "--patch-with-raw"; "-z"; "--"; "/dev/null";
      path file ]
    (repo_path repository) (Some (mkOptions {[ 0%Z; 1%Z ]})).
Proof.
  intros H. unfold GitDiffArgs.workingDirectoryDiff. rewrite H. reflexivity.
Qed.

Lemma workingDirectoryDiff_Renamed (repository : Repository)
    (file : WorkingDirectoryFileChange) :
  status file = Renamed ->
  GitDiffArgs.workingDirectoryDiff repository file =
  mkInvocation [ "diff"; "--patch-with-raw"; "-z"; "--"; path file ]
    (repo_path repository) None.
Proof.
  intros H. unfold GitDiffArgs.workingDirectoryDiff. rewrite H. reflexivity.
Qed.

Lemma workingDirectoryDiff_default (repository : Repository)
    (file : WorkingDirectoryFileChange) :
  status file <> New -> status file <> Renamed ->
  GitDiffArgs.workingDirectoryDiff repository file =
  mkInvocation [ "diff"; "HEAD"; "--patch-with-raw"; "-z"; "--"; path file ]
    (repo_path repository) None.
Proof.
  intros HN HR. unfold GitDiffArgs.workingDirectoryDiff.
  destruct (decide (status file = New)); [contradiction|].
  destruct (decide (status file = Renamed)); [contradiction|].
  reflexivity.
Qed.

(** ** The claims about the invocations *)


(** C1: for a working-directory file whose status is [New], the invocation
    is [git diff --no-index] with the null device (the empty file) and the
    file as the two sides after [--]; the options accept the exit codes 0
    and 1 and no other, so a run that ends with one of them is parsed and
    a run that ends with any other code (2, say) is rejected with a
    [ToolExecutionError]. *)
Theorem new_file_no_index_and_exit_codes
    (repository : Repository) (file : WorkingDirectoryFileChange) :
  status file = New ->
  let inv := GitDiffArgs.workingDirectoryDiff repository file in
  args inv = [ "diff"; "--no-index"; "--patch-with-raw"; "-z"; "--";
               "/dev/null"; path file ] /\
  "--no-index" ∈ GitDiffArgs.beforeSeparator (args inv) /\
  GitDiffArgs.afterSeparator (args inv) = [ "/dev/null"; path file ] /\
  cwd inv = repo_path repository /\
  (exists o, opts inv = Some o /\
     forall c : Z, c ∈ successExitCodes o <-> c = 0%Z \/ c = 1%Z) /\
  (forall (tool : Tool) (result : ProcessResult),
     tool (args inv) (cwd inv) = Some result ->
     forall (Parser : Type) (newParser : Parser)
            (parse : Parser -> string -> (Error + Diff) * Parser)
            (heap : list Parser),
       GitDiff.getWorkingDirectoryDiff Parser newParser parse tool heap
         repository file =
       if decide (exitCode result = 0%Z \/ exitCode result = 1%Z)
       then GitDiff.diffFromRawDiffOutput Parser newParser parse heap
              (stdout result)
       else (inl ToolExecutionError, heap)).
Proof.
  intros Hnew inv. subst inv.
  rewrite (workingDirectoryDiff_New repository file Hnew). simpl.
  split; [reflexivity|].
  split; [args_facts|].
  split; [reflexivity|].
  split; [reflexivity|].
  split.
  - eexists. split; [reflexivity|]. simpl. intros c. set_solver.
  - intros tool result Hrun Parser newParser parse heap.
    unfold GitDiff.getWorkingDirectoryDiff.
    rewrite (workingDirectoryDiff_New repository file Hnew). simpl.
    unfold Core.git. rewrite Hrun.
    pose proof (accepted_zero_one (exitCode result)) as Hacc.
    repeat case_decide; try reflexivity; exfalso; tauto.
Qed.

(** The claim at a new file [a.txt]: a run that exits with 1 is parsed, a
    run that exits with 2 is rejected. *)
Lemma new_file_exit_1_parsed_exit_2_rejected :
  GitDiff.getWorkingDirectoryDiff DiffParser.t DiffParser.fresh
    (DiffParser.parse 1000) (Samples.toolExiting 1) [] Samples.repo
    (mkWorkingDirectoryFileChange "a.txt" New) =
  GitDiff.diffFromRawDiffOutput DiffParser.t DiffParser.fresh
    (DiffParser.parse 1000) [] Samples.response /\
  GitDiff.getWorkingDirectoryDiff DiffParser.t DiffParser.fresh
    (DiffParser.parse 1000) (Samples.toolExiting 2) [] Samples.repo
    (mkWorkingDirectoryFileChange "a.txt" New) =
  (inl ToolExecutionError, []).
Proof.
  pose proof (new_file_no_index_and_exit_codes Samples.repo
                (mkWorkingDirectoryFileChange "a.txt" New) eq_refl) as H.
  destruct H as (_ & _ & _ & _ & _ & H).
  split.
  - exact (H (Samples.toolExiting 1) _ eq_refl DiffParser.t DiffParser.fresh
             (DiffParser.parse 1000) []).
  - exact (H (Samples.toolExiting 2) _ eq_refl DiffParser.t DiffParser.fresh
             (DiffParser.parse 1000) []).
Defined.

(** C3: for a repository, a file and a commit-ish, the invocation is
    [git log] on that commit-ish with, after it, [-1] (one entry),
    [--first-parent], [--patch-with-raw] and [-z] (NUL between the
    sections) before [--] and the path of the file, alone, after it; it
    runs in the directory of the repository. *)
Theorem commit_diff_invocation
    (repository : Repository) (file : FileChange) (commitish : string) :
  let inv := GitDiffArgs.commitDiff repository file commitish in
  args inv = [ "log"; commitish; "-m"; "-1"; "--first-parent";
               "--patch-with-raw"; "-z"; "--"; fc_path file ] /\
  args inv !! 0 = Some "log" /\
  args inv !! 1 = Some commitish /\
  GitDiffArgs.beforeSeparator (drop 2 (args inv)) =
    [ "-m"; "-1"; "--first-parent"; "--patch-with-raw"; "-z" ] /\
  "-1" ∈ GitDiffArgs.beforeSeparator (drop 2 (args inv)) /\
  "--first-parent" ∈ GitDiffArgs.beforeSeparator (drop 2 (args inv)) /\
  "--patch-with-raw" ∈ GitDiffArgs.beforeSeparator (drop 2 (args inv)) /\
  "-z" ∈ GitDiffArgs.beforeSeparator (drop 2 (args inv)) /\
  GitDiffArgs.afterSeparator (drop 2 (args inv)) = [ fc_path file ] /\
  cwd inv = repo_path repository.
Proof.
  simpl. args_facts.
Qed.

(** C6: a commit-relative request passes no options to [git], so the
    accepted exit codes are the default, 0 alone: a run that exits with 0
    is parsed, a run that exits with any other code, and a tool that does
    not start, are rejected with a [ToolExecutionError] and nothing is
    parsed. *)
Theorem commit_diff_default_exit_codes
    (repository : Repository) (file : FileChange) (commitish : string) :
  let inv := GitDiffArgs.commitDiff repository file commitish in
  opts inv = None /\
  Core.acceptedExitCodes (opts inv) = {[ 0%Z ]} /\
  forall (Parser : Type) (newParser : Parser)
         (parse : Parser -> string -> (Error + Diff) * Parser)
         (tool : Tool) (heap : list Parser),
    GitDiff.getCommitDiff Parser newParser parse tool heap repository file
      commitish =
    match tool (args inv) (cwd inv) with
    | Some result =>
        if decide (exitCode result = 0%Z)
        then GitDiff.diffFromRawDiffOutput Parser newParser parse heap
               (stdout result)
        else (inl ToolExecutionError, heap)
    | None => (inl ToolExecutionError, heap)
    end.
Proof.
  simpl. split; [reflexivity|]. split; [reflexivity|].
  intros Parser newParser parse tool heap.
  unfold GitDiff.getCommitDiff, Core.git. simpl.
  destruct (tool _ _) as [result|]; [|reflexivity].
  pose proof (accepted_default (exitCode result)) as Hacc. simpl in Hacc.
  repeat case_decide; try reflexivity; exfalso; tauto.
Qed.

(** C4: for a working-directory file whose status is [Renamed], the
    invocation is [git diff] with options only before [--]: no revision,
    and no [HEAD] in particular, stands there, and neither [--cached] nor
    [--no-index] does, which is the comparison of the working file with
    the index. *)
Theorem renamed_file_against_index
    (repository : Repository) (file : WorkingDirectoryFileChange) :
  status file = Renamed ->
  let inv := GitDiffArgs.workingDirectoryDiff repository file in
  args inv = [ "diff"; "--patch-with-raw"; "-z"; "--"; path file ] /\
  GitDiffArgs.beforeSeparator (args inv) =
    [ "diff"; "--patch-with-raw"; "-z" ] /\
  ("HEAD" ∉ GitDiffArgs.beforeSeparator (args inv)) /\
  ("--cached" ∉ GitDiffArgs.beforeSeparator (args inv)) /\
  ("--no-index" ∉ GitDiffArgs.beforeSeparator (args inv)) /\
  GitDiffArgs.afterSeparator (args inv) = [ path file ] /\
  opts inv = None.
Proof.
  intros Hren inv. subst inv.
  rewrite (workingDirectoryDiff_Renamed repository file Hren). simpl.
  args_facts.
Qed.

(** The claim at a renamed file that is itself called [HEAD]: the name
    stands after [--], where it is a path. *)
Lemma renamed_file_called_HEAD :
  let inv := GitDiffArgs.workingDirectoryDiff Samples.repo
               (mkWorkingDirectoryFileChange "HEAD" Renamed) in
  ("HEAD" ∉ GitDiffArgs.beforeSeparator (args inv)) /\
  GitDiffArgs.afterSeparator (args inv) = [ "HEAD" ].
Proof.
  pose proof (renamed_file_against_index Samples.repo
                (mkWorkingDirectoryFileChange "HEAD" Renamed) eq_refl) as H.
  destruct H as (_ & _ & Hhead & _ & _ & Hafter & _).
  simpl. split; [exact Hhead | exact Hafter].
Defined.

(** C5: for a working-directory file whose status is [Modified], the
    invocation is [git diff HEAD]: the revision [HEAD], the last commit,
    stands before [--], and the path of the file after it. *)
Theorem modified_file_against_HEAD
    (repository : Repository) (file : WorkingDirectoryFileChange) :
  status file = Modified ->
  let inv := GitDiffArgs.workingDirectoryDiff repository file in
  args inv = [ "diff"; "HEAD"; "--patch-with-raw"; "-z"; "--"; path file ] /\
  args inv !! 1 = Some "HEAD" /\
  "HEAD" ∈ GitDiffArgs.beforeSeparator (args inv) /\
  ("--no-index" ∉ GitDiffArgs.beforeSeparator (args inv)) /\
  GitDiffArgs.afterSeparator (args inv) = [ path file ] /\
  opts inv = None.
Proof.
  intros Hmod inv. subst inv.
  rewrite (workingDirectoryDiff_default repository file) by (rewrite Hmod; discriminate).
  simpl. args_facts.
Qed.

Lemma modified_file_against_HEAD_witness :
  let inv := GitDiffArgs.workingDirectoryDiff Samples.repo
               (mkWorkingDirectoryFileChange "a.txt" Modified) in
  args inv = [ "diff"; "HEAD"; "--patch-with-raw"; "-z"; "--"; "a.txt" ] /\
  "HEAD" ∈ GitDiffArgs.beforeSeparator (args inv).
Proof.
  pose proof (modified_file_against_HEAD Samples.repo
                (mkWorkingDirectoryFileChange "a.txt" Modified) eq_refl) as H.
  destruct H as (Hargs & _ & Hhead & _).
  split; [exact Hargs | exact Hhead].
Defined.

(** C7: whatever the status of a working-directory file, [--patch-with-raw]
    and [-z] stand before [--], and the invocation is about the file and
    no other: its path is the last argument and stands alone after [--],
    but for a new file, where the null device, the empty side of the
    comparison, stands before it. *)
Theorem working_directory_diff_common
    (repository : Repository) (file : WorkingDirectoryFileChange) :
  let inv := GitDiffArgs.workingDirectoryDiff repository file in
  "--patch-with-raw" ∈ GitDiffArgs.beforeSeparator (args inv) /\
  "-z" ∈ GitDiffArgs.beforeSeparator (args inv) /\
  GitDiffArgs.scope (args inv) = [ path file ] /\
  GitDiffArgs.afterSeparator (args inv) =
    match status file with
    | New => [ "/dev/null"; path file ]
    | _ => [ path file ]
    end /\
  last (args inv) = Some (path file) /\
  cwd inv = repo_path repository.
Proof.
  destruct file as [p s]. destruct s; simpl; args_facts.
Qed.

(** C9: a working-directory file whose status is neither [New] nor
    [Renamed] (a deleted or a conflicted file, say) takes the last branch
    of the dispatch: its invocation is [git diff HEAD], the one of a
    modified file of the same path, and so is the outcome of the
    request. *)
Theorem other_statuses_as_modified
    (repository : Repository) (file : WorkingDirectoryFileChange) :
  status file <> New -> status file <> Renamed ->
  let modified := mkWorkingDirectoryFileChange (path file) Modified in
  let inv := GitDiffArgs.workingDirectoryDiff repository file in
  inv = GitDiffArgs.workingDirectoryDiff repository modified /\
  args inv = [ "diff"; "HEAD"; "--patch-with-raw"; "-z"; "--"; path file ] /\
  "HEAD" ∈ GitDiffArgs.beforeSeparator (args inv) /\
  opts inv = None /\
  forall (Parser : Type) (newParser : Parser)
         (parse : Parser -> string -> (Error + Diff) * Parser)
         (tool : Tool) (heap : list Parser),
    GitDiff.getWorkingDirectoryDiff Parser newParser parse tool heap
      repository file =
    GitDiff.getWorkingDirectoryDiff Parser newParser parse tool heap
      repository modified.
Proof.
  intros HN HR modified inv. subst inv.
  assert (GitDiffArgs.workingDirectoryDiff repository file =
          GitDiffArgs.workingDirectoryDiff repository modified) as Hsame.
  { rewrite (workingDirectoryDiff_default repository file HN HR).
    rewrite (workingDirectoryDiff_default repository modified)
      by (subst modified; simpl; discriminate).
    reflexivity. }
  split; [exact Hsame|].
  rewrite (workingDirectoryDiff_default repository file HN HR). simpl.
  split; [reflexivity|]. split; [args_facts|]. split; [reflexivity|].
  intros Parser newParser parse tool heap.
  unfold GitDiff.getWorkingDirectoryDiff. rewrite Hsame. reflexivity.
Qed.

(** The claim at a deleted and at a conflicted file. *)
Lemma deleted_and_conflicted_as_modified :
  args (GitDiffArgs.workingDirectoryDiff Samples.repo
          (mkWorkingDirectoryFileChange "a.txt" Deleted)) =
    [ "diff"; "HEAD"; "--patch-with-raw"; "-z"; "--"; "a.txt" ] /\
  GitDiffArgs.workingDirectoryDiff Samples.repo
    (mkWorkingDirectoryFileChange "b.txt" Conflicted) =
  GitDiffArgs.workingDirectoryDiff Samples.repo
    (mkWorkingDirectoryFileChange "b.txt" Modified).
Proof.
  split.
  - apply (other_statuses_as_modified Samples.repo
             (mkWorkingDirectoryFileChange "a.txt" Deleted));
      simpl; discriminate.
  - apply (other_statuses_as_modified Samples.repo
             (mkWorkingDirectoryFileChange "b.txt" Conflicted));
      simpl; discriminate.
Defined.

(** ** The claims about the raw output *)

(** C2: [diffFromRawDiffOutput] splits the response on NUL and parses the
    last piece and nothing else: the piece holds no NUL; in a response
    with a NUL it is what follows the last NUL, and what stands before is
    not passed to the parser; a response without a NUL is parsed whole. *)
Theorem last_segment_is_parsed
    (Parser : Type) (newParser : Parser)
    (parse : Parser -> string -> (Error + Diff) * Parser)
    (heap : list Parser) (result : string) :
  exists (front : list string) (patch : string),
    Str.split Str.NUL result = front ++ [patch] /\
    Str.contains Str.NUL patch = false /\
    (if Str.contains Str.NUL result
     then front <> [] /\
          result = Str.join Str.NUL front +:+ String Str.NUL patch
     else front = [] /\ patch = result) /\
    GitDiff.diffFromRawDiffOutput Parser newParser parse heap result =
    (fst (parse newParser patch), heap ++ [snd (parse newParser patch)]).
Proof.
  destruct (split_last_suffix Str.NUL result)
    as (front & patch & Hsplit & Hclean & Hshape).
  exists front, patch.
  split; [exact Hsplit|]. split; [exact Hclean|]. split; [exact Hshape|].
  destruct (diffFromRawDiffOutput_last Parser newParser parse heap result)
    as (front' & patch' & Hsplit' & Hcall).
  rewrite Hsplit in Hsplit'. apply app_inj_tail in Hsplit' as [_ <-].
  exact Hcall.
Qed.

(** C8: the empty response splits into one piece, the empty text; the
    parser reads it as a diff of no hunks, whatever the size threshold,
    and that is what [diffFromRawDiffOutput] returns. *)
Theorem empty_response_zero_hunks
    (maxDiffSize : nat) (heap : list DiffParser.t) :
  Str.split Str.NUL "" = [ "" ] /\
  Str.split Str.NUL "" !! (List.length (Str.split Str.NUL "") - 1) = Some "" /\
  fst (DiffParser.parse maxDiffSize DiffParser.fresh "") = inr (Hunks []) /\
  GitDiff.diffFromRawDiffOutput DiffParser.t DiffParser.fresh
    (DiffParser.parse maxDiffSize) heap "" =
  (inr (Hunks []), heap ++ [DiffParser.fresh]) /\
  hunkCount (Hunks []) = Some 0.
Proof.
  assert (DiffParser.parse maxDiffSize DiffParser.fresh "" =
          (inr (Hunks []), DiffParser.fresh)) as Hparse.
  { unfold DiffParser.parse. simpl String.length.
    destruct (decide (maxDiffSize < 0)) as [Hlt|_]; [lia | reflexivity]. }
  split; [reflexivity|]. split; [reflexivity|].
  split; [rewrite Hparse; reflexivity|].
  split; [|reflexivity].
  destruct (diffFromRawDiffOutput_last DiffParser.t DiffParser.fresh
              (DiffParser.parse maxDiffSize) heap "")
    as (front & patch & Hsplit & Hcall).
  change (Str.split Str.NUL "") with ([] ++ [ "" ]) in Hsplit.
  apply app_inj_tail in Hsplit as [_ <-].
  rewrite Hcall, Hparse. reflexivity.
Qed.

(** C10: the outcome of [diffFromRawDiffOutput] is the same on every
    store of parser objects, and the call leaves the objects it finds
    there as they are: it writes to the one it allocates.  In a run of
    calls, in any order, two calls on the same text have the same
    outcome, the one of a call on that text made alone, and the run adds
    one object per call to the store and changes no other. *)
Theorem parsing_is_stateless
    (Parser : Type) (newParser : Parser)
    (parse : Parser -> string -> (Error + Diff) * Parser) :
  (forall (heap heap' : list Parser) (result : string),
     fst (GitDiff.diffFromRawDiffOutput Parser newParser parse heap result) =
     fst (GitDiff.diffFromRawDiffOutput Parser newParser parse heap' result)) /\
  (forall (heap : list Parser) (result : string),
     exists object,
       snd (GitDiff.diffFromRawDiffOutput Parser newParser parse heap result) =
       heap ++ [object]) /\
  (forall (heap : list Parser) (outputs : list string) (i j : nat)
          (result : string),
     outputs !! i = Some result -> outputs !! j = Some result ->
     let outcomes :=
       fst (GitDiff.parseAll Parser newParser parse heap outputs) in
     let alone :=
       fst (GitDiff.diffFromRawDiffOutput Parser newParser parse [] result) in
     outcomes !! i = Some alone /\ outcomes !! j = Some alone) /\
  (forall (heap : list Parser) (outputs : list string),
     exists objects,
       snd (GitDiff.parseAll Parser newParser parse heap outputs) =
       heap ++ objects /\
       List.length objects = List.length outputs).
Proof.
  split; [|split; [|split]].
  - apply diffFromRawDiffOutput_outcome.
  - apply diffFromRawDiffOutput_store.
  - intros heap outputs i j result Hi Hj. simpl.
    rewrite parseAll_outcomes, !list_lookup_fmap, Hi, Hj.
    split; reflexivity.
  - intros heap outputs. apply parseAll_store.
Qed.

(** The claim at three responses parsed in a row, the first and the last
    the same: their outcomes are the same. *)
Lemma same_text_same_outcome :
  let outcomes :=
    fst (GitDiff.parseAll DiffParser.t DiffParser.fresh (DiffParser.parse 1000)
           [] [ Samples.response; Samples.fragment; Samples.response ]) in
  outcomes !! 0 = outcomes !! 2.
Proof.
  pose proof (parsing_is_stateless DiffParser.t DiffParser.fresh
                (DiffParser.parse 1000)) as (_ & _ & H & _).
  destruct (H [] [ Samples.response; Samples.fragment; Samples.response ]
              0 2 Samples.response eq_refl eq_refl) as [H0 H2].
  exact (eq_trans H0 (eq_sym H2)).
Defined.

(** ** The samples of the testable properties *)

Example split_sample_response :
  Str.split Str.NUL Samples.response = [ "RAW_SUMMARY"; Samples.patch ] /\
  Str.startsWith Samples.patch "diff --git" = true.
Proof. split; reflexivity. Qed.

Example split_without_NUL :
  Str.split Str.NUL Samples.patch = [ Samples.patch ].
Proof. reflexivity. Qed.

Example sample_response_parsed :
  fst (GitDiff.diffFromRawDiffOutput DiffParser.t DiffParser.fresh
         (DiffParser.parse 1000) [] Samples.response) =
  inr (Hunks
         [ mkHunk (mkHunkHeader 1 1 1 1)
             [ mkDiffLine "old" Removed (Some 1%N) None;
               mkDiffLine "new" Added None (Some 1%N) ] ]).
Proof. vm_compute. reflexivity. Qed.

Example fragment_line_numbers :
  fst (DiffParser.parse 1000 DiffParser.fresh Samples.fragment) =
  inr (Hunks
         [ mkHunk (mkHunkHeader 2 3 2 4)
             [ mkDiffLine "context1" Context (Some 2%N) (Some 2%N);
               mkDiffLine "removed1" Removed (Some 3%N) None;
               mkDiffLine "added1" Added None (Some 3%N);
               mkDiffLine "added2" Added None (Some 4%N);
               mkDiffLine "context2" Context (Some 4%N) (Some 5%N) ] ]).
Proof. vm_compute. reflexivity. Qed.

Example header_without_digits :
  fst (DiffParser.parse 1000 DiffParser.fresh "@@ -2, +2 @@") =
  inl (ParseError "@@ -2, +2 @@").
Proof. vm_compute. reflexivity. Qed.

Example binary_content :
  fst (DiffParser.parse 1000 DiffParser.fresh
         ("diff --git a/x b/x" +:+ Samples.lf +:+
          "Binary files a/x and b/x differ" +:+ Samples.lf)) =
  inr NotDiffable.
Proof. vm_compute. reflexivity. Qed.

Example beyond_the_threshold :
  fst (DiffParser.parse 10 DiffParser.fresh Samples.fragment) = inr NotDiffable.
Proof. vm_compute. reflexivity. Qed.

Example commit_diff_sample :
  args (GitDiffArgs.commitDiff Samples.repo (mkFileChange "foo.txt") "abc123") =
  [ "log"; "abc123"; "-m"; "-1"; "--first-parent"; "--patch-with-raw"; "-z";
    "--"; "foo.txt" ].
Proof. reflexivity. Qed.

Example commit_diff_exit_1_rejected :
  GitDiff.getCommitDiff DiffParser.t DiffParser.fresh (DiffParser.parse 1000)
    (Samples.toolExiting 1) [] Samples.repo (mkFileChange "foo.txt") "abc123" =
  (inl ToolExecutionError, []).
Proof. vm_compute. reflexivity. Qed.

(** * Further properties of the module *)

(** ** What the split keeps and what it drops *)

Section SplitMore.

Variable sep : ascii.

(** Splitting commutes with cutting at a separator. *)
Lemma split_at_sep (a b : string) :
  Str.split sep (a +:+ String sep b) = Str.split sep a ++ Str.split sep b.
Proof.
  induction a as [|c a IH].
  - change (Str.split sep (String sep b) = [ "" ] ++ Str.split sep b).
    simpl. rewrite Ascii.eqb_refl. reflexivity.
  - change (Str.split sep (String c (a +:+ String sep b)) =
            Str.split sep (String c a) ++ Str.split sep b).
    simpl Str.split. rewrite IH.
    destruct (Ascii.eqb c sep); [reflexivity|].
    pose proof (split_not_nil sep a) as Hne.
    destruct (Str.split sep a) as [|p ps]; [congruence | reflexivity].
Qed.

(** The last piece of a string cut at a separator is the last piece of
    what follows the cut. *)
Lemma last_split_at_sep (a b : string) :
  last (Str.split sep (a +:+ String sep b)) = last (Str.split sep b).
Proof.
  rewrite split_at_sep.
  pose proof (split_not_nil sep b) as Hne.
  destruct (Str.split sep b) as [|p ps] using rev_ind; [congruence|].
  rewrite app_assoc, !last_snoc. reflexivity.
Qed.

(** X3: [split] and [join] with the same separator undo each other: the
    pieces of a string join back to it, and a non-empty list of pieces
    free of the separator is what its join splits into; [split] gives
    such a list. *)
Theorem split_join_round_trip :
  (forall s : string, Str.join sep (Str.split sep s) = s) /\
  (forall s : string,
     Str.split sep s <> [] /\
     Forall (fun piece => Str.contains sep piece = false) (Str.split sep s)) /\
  (forall pieces : list string,
     pieces <> [] ->
     Forall (fun piece => Str.contains sep piece = false) pieces ->
     Str.split sep (Str.join sep pieces) = pieces).
Proof.
  split; [|split].
  - apply join_split.
  - intros s. split; [apply split_not_nil | apply split_pieces_clean].
  - apply split_unique.
Qed.

End SplitMore.

(** The round trip at two pieces and the NUL: the raw section and a
    patch. *)
Lemma split_join_sample :
  Str.split Str.NUL (Str.join Str.NUL [ "RAW_SUMMARY"; Samples.patch ]) =
  [ "RAW_SUMMARY"; Samples.patch ].
Proof.
  apply (split_join_round_trip Str.NUL).
  - discriminate.
  - repeat constructor.
Defined.

(** ** The raw section and the outcome *)

Section RawSection.

Variable Parser : Type.
Variable newParser : Parser.
Variable parse : Parser -> string -> (Error + Diff) * Parser.

(** Two responses with the same last piece have the same outcome. *)
Lemma diffFromRawDiffOutput_by_last (heap heap' : list Parser)
    (result result' : string) :
  last (Str.split Str.NUL result) = last (Str.split Str.NUL result') ->
  fst (GitDiff.diffFromRawDiffOutput Parser newParser parse heap result) =
  fst (GitDiff.diffFromRawDiffOutput Parser newParser parse heap' result').
Proof.
  intros Hlast.
  destruct (diffFromRawDiffOutput_last Parser newParser parse heap result)
    as (f & p & Hs & ->).
  destruct (diffFromRawDiffOutput_last Parser newParser parse heap' result')
    as (f' & p' & Hs' & ->).
  rewrite Hs, Hs', !last_snoc in Hlast. injection Hlast as ->. reflexivity.
Qed.

(** X1: what stands before a NUL in the response has no part in the
    outcome: a response cut at any of its NULs gives the outcome of what
    follows the cut, whatever precedes it and on whatever store. *)
Theorem raw_section_is_ignored (heap heap' : list Parser) (raw rest : string) :
  fst (GitDiff.diffFromRawDiffOutput Parser newParser parse heap
         (raw +:+ String Str.NUL rest)) =
  fst (GitDiff.diffFromRawDiffOutput Parser newParser parse heap' rest).
Proof.
  apply diffFromRawDiffOutput_by_last, last_split_at_sep.
Qed.

(** X2: a patch without a NUL, sent after a raw section and a NUL, is
    parsed whole, on the parser the call allocates; the raw section may
    hold NULs of its own and the patch may be empty. *)
Theorem clean_patch_is_parsed_whole (heap : list Parser) (raw patch : string) :
  Str.contains Str.NUL patch = false ->
  GitDiff.diffFromRawDiffOutput Parser newParser parse heap
    (raw +:+ String Str.NUL patch) =
  (fst (parse newParser patch), heap ++ [ snd (parse newParser patch) ]).
Proof.
  intros Hclean.
  destruct (diffFromRawDiffOutput_last Parser newParser parse heap
              (raw +:+ String Str.NUL patch)) as (f & p & Hs & ->).
  pose proof (last_split_at_sep Str.NUL raw patch) as Hlast.
  rewrite Hs, (split_clean Str.NUL patch Hclean), last_snoc in Hlast.
  simpl in Hlast. injection Hlast as ->. reflexivity.
Qed.

End RawSection.

(** The property at a raw section with two NULs of its own and at a
    response that ends with the NUL. *)
Lemma clean_patch_samples :
  fst (GitDiff.diffFromRawDiffOutput DiffParser.t DiffParser.fresh
         (DiffParser.parse 1000) []
         (":100644 100644 M" +:+ Samples.nul +:+ "x" +:+ Samples.nul +:+
          Samples.nul +:+ Samples.patch)) =
  fst (DiffParser.parse 1000 DiffParser.fresh Samples.patch) /\
  fst (GitDiff.diffFromRawDiffOutput DiffParser.t DiffParser.fresh
         (DiffParser.parse 1000) [] ("RAW_SUMMARY" +:+ Samples.nul)) =
  fst (DiffParser.parse 1000 DiffParser.fresh "").
Proof.
  split.
  - exact (f_equal fst
      (clean_patch_is_parsed_whole DiffParser.t DiffParser.fresh
         (DiffParser.parse 1000) []
         (":100644 100644 M" +:+ Samples.nul +:+ "x" +:+ Samples.nul)
         Samples.patch eq_refl)).
  - exact (f_equal fst
      (clean_patch_is_parsed_whole DiffParser.t DiffParser.fresh
         (DiffParser.parse 1000) [] "RAW_SUMMARY" "" eq_refl)).
Defined.

(** ** The commit-ish among the arguments *)

(** X4: [getCommitDiff] puts the commit-ish among the arguments as it
    comes.  Read as git reads them, the arguments have the path of the
    file alone after the first [--] exactly when the commit-ish is not
    [--] itself: then the commit-ish and the five options stand before
    it; a commit-ish [--] is taken for the separator, and the options and
    the [--] of the list are read as paths. *)
Theorem commitish_and_separator
    (repository : Repository) (file : FileChange) (commitish : string) :
  let inv := GitDiffArgs.commitDiff repository file commitish in
  (GitDiffArgs.afterSeparator (args inv) = [ fc_path file ] <->
   commitish <> "--") /\
  (commitish <> "--" ->
   GitDiffArgs.beforeSeparator (args inv) =
     [ "log"; commitish; "-m"; "-1"; "--first-parent"; "--patch-with-raw";
       "-z" ]) /\
  (commitish = "--" ->
   GitDiffArgs.beforeSeparator (args inv) = [ "log" ] /\
   GitDiffArgs.afterSeparator (args inv) =
     [ "-m"; "-1"; "--first-parent"; "--patch-with-raw"; "-z"; "--";
       fc_path file ]).
Proof.
  simpl. destruct (String.eqb_spec commitish "--") as [Heq|Hne].
  - split; [|split].
    + split; [discriminate | intros Hne; contradiction].
    + intros Hne. contradiction.
    + intros _. split; reflexivity.
  - split; [|split].
    + split; [intros _; exact Hne | reflexivity].
    + reflexivity.
    + intros Heq. contradiction.
Qed.

(** The property at the commit-ish [abc123] and at the commit-ish [--]. *)
Lemma commitish_samples :
  GitDiffArgs.afterSeparator
    (args (GitDiffArgs.commitDiff Samples.repo (mkFileChange "foo.txt")
             "abc123")) = [ "foo.txt" ] /\
  GitDiffArgs.beforeSeparator
    (args (GitDiffArgs.commitDiff Samples.repo (mkFileChange "foo.txt")
             "--")) = [ "log" ].
Proof.
  split.
  - apply (commitish_and_separator Samples.repo (mkFileChange "foo.txt")
             "abc123"). discriminate.
  - apply (commitish_and_separator Samples.repo (mkFileChange "foo.txt")
             "--"). reflexivity.
Defined.

(** ** The requests and the store *)

Section Requests.

Variable Parser : Type.
Variable newParser : Parser.
Variable parse : Parser -> string -> (Error + Diff) * Parser.

(** What [then] makes of a settled [git] call: a rejection is passed on
    and no parser is allocated; a fulfilled call is parsed on a parser of
    its own, with the outcome the text has on the empty store. *)
Lemma thenParse_settled (heap : list Parser) (value : Error + ProcessResult) :
  match value with
  | inl e =>
      GitDiff.thenParse Parser newParser parse heap value = (inl e, heap)
  | inr v =>
      exists object,
        GitDiff.thenParse Parser newParser parse heap value =
        (fst (GitDiff.diffFromRawDiffOutput Parser newParser parse []
                (stdout v)),
         heap ++ [ object ])
  end.
Proof.
  destruct value as [e|v]; simpl; [reflexivity|].
  destruct (diffFromRawDiffOutput_store Parser newParser parse heap (stdout v))
    as (object & Hstore).
  exists object.
  rewrite (diffFromRawDiffOutput_outcome Parser newParser parse [] heap).
  rewrite <- Hstore. apply surjective_pairing.
Qed.

(** X5: a request whose [git] call is rejected is rejected with the same
    error, and no parser is allocated: the store is as before.  A request
    whose [git] call is fulfilled adds one parser object to the store and
    changes no other, and its outcome is the one its standard output has
    on the empty store: it does not depend on the requests made before.
    This holds for [getCommitDiff] and for [getWorkingDirectoryDiff]. *)
Theorem requests_and_the_store (tool : Tool) (heap : list Parser)
    (repository : Repository) :
  (forall (file : FileChange) (commitish : string),
     let inv := GitDiffArgs.commitDiff repository file commitish in
     let request :=
       GitDiff.getCommitDiff Parser newParser parse tool heap repository file
         commitish in
     match Core.git tool (args inv) (cwd inv) (opts inv) with
     | inl e => request = (inl e, heap)
     | inr v =>
         exists object,
           request =
           (fst (GitDiff.diffFromRawDiffOutput Parser newParser parse []
                   (stdout v)),
            heap ++ [ object ])
     end) /\
  (forall file : WorkingDirectoryFileChange,
     let inv := GitDiffArgs.workingDirectoryDiff repository file in
     let request :=
       GitDiff.getWorkingDirectoryDiff Parser newParser parse tool heap
         repository file in
     match Core.git tool (args inv) (cwd inv) (opts inv) with
     | inl e => request = (inl e, heap)
     | inr v =>
         exists object,
           request =
           (fst (GitDiff.diffFromRawDiffOutput Parser newParser parse []
                   (stdout v)),
            heap ++ [ object ])
     end).
Proof.
  split.
  - intros file commitish inv request. subst request.
    unfold GitDiff.getCommitDiff. fold inv.
    apply (thenParse_settled heap (Core.git tool (args inv) (cwd inv) (opts inv))).
  - intros file inv request. subst request.
    unfold GitDiff.getWorkingDirectoryDiff. fold inv.
    apply (thenParse_settled heap (Core.git tool (args inv) (cwd inv) (opts inv))).
Qed.

End Requests.

(** The property on a store of two parser objects: a commit request whose
    tool exits with 2 leaves the two; one whose tool exits with 0 adds a
    third. *)
Lemma requests_on_a_store_of_two :
  let heap := [ DiffParser.fresh; DiffParser.fresh ] in
  let request code :=
    GitDiff.getCommitDiff DiffParser.t DiffParser.fresh (DiffParser.parse 1000)
      (Samples.toolExiting code) heap Samples.repo (mkFileChange "foo.txt")
      "abc123" in
  request 2%Z = (inl ToolExecutionError, heap) /\
  exists object, snd (request 0%Z) = heap ++ [ object ].
Proof.
  intros heap request. split.
  - exact (proj1 (requests_and_the_store DiffParser.t DiffParser.fresh
                    (DiffParser.parse 1000) (Samples.toolExiting 2) heap
                    Samples.repo) (mkFileChange "foo.txt") "abc123").
  - destruct (proj1 (requests_and_the_store DiffParser.t DiffParser.fresh
                       (DiffParser.parse 1000) (Samples.toolExiting 0) heap
                       Samples.repo) (mkFileChange "foo.txt") "abc123")
      as (object & Hrequest).
    exists object. exact (f_equal snd Hrequest).
Defined.
